(** * Digital-transformation index dashboard (app.py): aggregation core

    A shallow embedding of the data handling of [app.py]: the loader, the
    preprocessing of the loaded frame, the query selector and the
    aggregations that feed the metrics and charts.  The presentation calls
    (Streamlit widgets, Plotly figures) are not modelled; only the values
    handed to them are.

    Numbers.  A numeric spreadsheet cell is a rational ([Q]) or missing
    (pandas' NaN, here [None]).  Arithmetic on finite values is exact, so
    statements about means and ratios are statements about the real-number
    result the float computation approximates; NaN and division by zero
    follow the IEEE rules pandas inherits from NumPy.  The year-over-year
    change is modelled a second time on binary64 values, with the kernel's
    primitive floats, to state what the running code yields to the last
    bit. *)

From Stdlib Require Import PrimFloat.
From Stdlib Require Floats Uint63.
From Stdlib Require Import QArith Qreduction Qfield Lqa OrderedTypeEx.
From stdpp Require Import gmap strings list sorting pretty.

Set Default Proof Using "Type".
Open Scope Z_scope.

(** ** Generic list helpers: Python's [sorted] and pandas' [unique] *)

Section ListOps.
Context {A : Type}.

(** Insertion of [x] before the first element it does not exceed. *)
Fixpoint insert_by (le : A → A → bool) (x : A) (l : list A) : list A :=
  match l with
  | [] => [x]
  | y :: l' => if le x y then x :: y :: l' else y :: insert_by le x l'
  end.

(** A stable sort, standing for [sorted], [sort_values] and the key
    ordering of [groupby]. *)
Definition sorted (le : A → A → bool) (l : list A) : list A :=
  foldr (insert_by le) [] l.

(** [Series.unique]: distinct values in order of first appearance. *)
Fixpoint unique `{EqDecision A} (l : list A) : list A :=
  match l with
  | [] => []
  | x :: l' => x :: filter (λ y, y ≠ x) (unique l')
  end.
End ListOps.

(** ** The data frame *)

(** A cell of the stock-code column as the spreadsheet reader delivers it:
    a number or a text. *)
Inductive code_cell :=
  | CodeInt (z : Z)
  | CodeStr (s : string).

(** One row of the sheet as read. *)
Record raw_row := RawRow {
  raw_code : code_cell;          (* 股票代码 *)
  raw_name : option string;      (* 企业名称, None when the cell is empty *)
  raw_year : Z;                  (* 年份 *)
  raw_index : option Q           (* 数字化转型指数, None for NaN *)
}.

(** One row of [df] once the code column has been cast to text. *)
Record row := Row {
  code : string;
  name : option string;
  year : Z;
  index_value : option Q
}.

Abbreviation frame := (list row).

Definition sentinel : string := "未知企业".

(** [str(x)] on a code cell. *)
Definition str (c : code_cell) : string :=
  match c with
  | CodeInt z => pretty z
  | CodeStr s => s
  end.

(** [df['股票代码'] = df['股票代码'].astype(str)] *)
Definition astype_str (raw : list raw_row) : frame :=
  (λ r, Row (str (raw_code r)) (raw_name r) (raw_year r) (raw_index r)) <$> raw.

(** [df['企业名称'] = df['企业名称'].fillna('未知企业')] *)
Definition fillna (v : string) (o : option string) : option string :=
  match o with
  | Some s => Some s
  | None => Some v
  end.

Definition fillna_name (df : frame) : frame :=
  (λ r, Row (code r) (fillna sentinel (name r)) (year r) (index_value r)) <$> df.

(** Lines 39-40. *)
Definition preprocess (raw : list raw_row) : frame :=
  fillna_name (astype_str raw).

(** A frame read back as input of the preprocessing step. *)
Definition as_raw (df : frame) : list raw_row :=
  (λ r, RawRow (CodeStr (code r)) (name r) (year r) (index_value r)) <$> df.

(** *** Grouping *)

Definition str_le (a b : string) : bool := String.leb a b.

(** Keys of [df.groupby('股票代码')]: distinct codes, ascending. *)
Definition code_keys (df : frame) : list string :=
  sorted str_le (unique (code <$> df)).

(** Keys of [df.groupby('年份')]: distinct years, ascending. *)
Definition year_keys (df : frame) : list Z :=
  sorted Z.leb (unique (year <$> df)).

Definition code_group (k : string) (df : frame) : frame :=
  filter (λ r, code r = k) df.

Definition year_group (y : Z) (df : frame) : frame :=
  filter (λ r, year r = y) df.

(** [GroupBy.first]: first non-missing value of the group, missing if
    there is none. *)
Fixpoint first {A} (l : list (option A)) : option A :=
  match l with
  | [] => None
  | Some a :: _ => Some a
  | None :: l' => first l'
  end.

(** Lines 42-44. *)
Definition available_stocks (df : frame) : list string :=
  sorted str_le (unique (code <$> df)).

Definition available_years (df : frame) : list Z :=
  sorted Z.leb (unique (year <$> df)).

Definition stock_name_map (df : frame) : gmap string (option string) :=
  list_to_map
    ((λ k, (k, first (name <$> code_group k df))) <$> code_keys df).

(** [stock_name_map.get(stock_search, '未知企业')] as interpolated in an
    f-string: a stored NaN prints as [nan]. *)
Definition show_name (o : option string) : string :=
  match o with
  | Some s => s
  | None => "nan"
  end.

Definition display_name (df : frame) (stock_search : string) : string :=
  show_name (default (Some sentinel) (stock_name_map df !! stock_search)).

(** ** Exceptions *)

Inductive exn :=
  | IndexError
  | KeyError (missing : list string)
  | FileError (path : string).

Inductive result (A : Type) :=
  | Ok (a : A)
  | Raise (e : exn).
Arguments Ok {A} a.
Arguments Raise {A} e.

Definition rbind {A B} (m : result A) (k : A → result B) : result B :=
  match m with
  | Ok a => k a
  | Raise e => Raise e
  end.

#[export] Instance result_ret : MRet result := λ A a, Ok a.
#[export] Instance result_bind : MBind result := λ A B k m, rbind m k.

(** [s.iloc[0]] *)
Definition iloc0 {A} (l : list A) : result A :=
  match l with
  | [] => Raise IndexError
  | a :: _ => Ok a
  end.

(** ** Query selector (lines 56-57) *)

(** [a >= b] on float cells: false as soon as one side is NaN. *)
Definition ge (a b : option Q) : bool :=
  match a, b with
  | Some x, Some y => Qle_bool y x
  | _, _ => false
  end.

(** Line 56: the rows of the searched code by ascending year.
    [sort_values] leaves the order of rows of equal year open; here they
    keep their table order. *)
Definition company_all_data (df : frame) (stock_search : string) : frame :=
  sorted (λ a b, Z.leb (year a) (year b))
         (filter (λ r, code r = stock_search) df).

Definition filtered_data (df : frame) (stock_search : string)
    (selected_year : Z) : frame :=
  filter (λ r, code r = stock_search ∧ year r = selected_year) df.

(** ** Metrics of the current selection (lines 71-79) *)

Definition current_year_data (df : frame) (selected_year : Z) : frame :=
  filter (λ r, year r = selected_year) df.

Definition current_rank (df : frame) (selected_year : Z) (v : option Q) : nat :=
  length (filter (λ r, ge (index_value r) v = true)
                 (current_year_data df selected_year)).

Record selection_metrics := Metrics {
  m_name : option string;   (* 企业名称, cut to 10 characters on display *)
  m_year : Z;               (* 当前年份 *)
  m_index : option Q;       (* 当前指数 *)
  m_rank : nat;             (* 当年排名: rank / total *)
  m_total : nat
}.

(** The block guarded by [if not filtered_data.empty]; [None] when the
    block is skipped. *)
Definition current_panel (df : frame) (stock_search : string)
    (selected_year : Z) : result (option selection_metrics) :=
  let fd := filtered_data df stock_search selected_year in
  if bool_decide (fd = []) then Ok None
  else
    nm ← iloc0 (name <$> fd);
    v ← iloc0 (index_value <$> fd);
    Ok (Some (Metrics nm selected_year v
                (current_rank df selected_year v)
                (length (current_year_data df selected_year)))).

(** ** Aggregation primitives *)

(** [Series.dropna] on a float column. *)
Definition dropna (l : list (option Q)) : list Q := omap id l.

Definition Qsum (l : list Q) : Q := foldr Qplus 0%Q l.

(** [mean()] with the default [skipna=True]: the average of the values
    present, NaN when there is none.  The result is kept in lowest terms. *)
Definition mean (l : list (option Q)) : option Q :=
  match dropna l with
  | [] => None
  | xs => Some (Qred (Qsum xs / inject_Z (Z.of_nat (length xs))))
  end.

(** [df.groupby('股票代码')['数字化转型指数'].mean()] *)
Definition code_mean (df : frame) : list (string * option Q) :=
  (λ k, (k, mean (index_value <$> code_group k df))) <$> code_keys df.

(** [df.groupby('年份')['数字化转型指数'].mean().reset_index()] *)
Definition yearly_mean (df : frame) : list (Z * option Q) :=
  (λ y, (y, mean (index_value <$> year_group y df))) <$> year_keys df.

(** [Series.nlargest(n)], [keep='first']: the entries with a value by
    descending value, earlier entries first among equal values, followed by
    the NaN entries; the first [n] of that. *)
Definition nlargest {K} (n : nat) (s : list (K * option Q)) : list (K * option Q) :=
  let dropped := filter (λ e, is_Some (snd e)) s in
  let nan_index := filter (λ e, ¬ is_Some (snd e)) s in
  take n (sorted (λ a b, ge (snd a) (snd b)) dropped ++ nan_index).

(** Line 133. *)
Definition top20 (df : frame) : list (string * option Q) :=
  nlargest 20 (code_mean df).

(** Line 126. *)
Definition top_stocks (df : frame) : list string :=
  fst <$> nlargest 30 (code_mean df).

(** *** Pivot table *)

Record pivot := Pivot {
  p_index : list string;               (* row labels *)
  p_columns : list Z;                  (* column labels *)
  p_cells : list (string * Z * Q)      (* the cells that hold a value *)
}.

(** [groupby(['股票代码', '年份']).agg('mean')]: one entry per (code, year)
    pair that occurs, in key order. *)
Definition agged (df : frame) : list (string * Z * option Q) :=
  k ← code_keys df;
  y ← year_keys df;
  let g := filter (λ r, code r = k ∧ year r = y) df in
  if bool_decide (g = []) then [] else [(k, y, mean (index_value <$> g))].

(** [pivot_table(values=.., index='股票代码', columns='年份',
    aggfunc='mean')] with the default [dropna=True]: groups whose mean is NaN
    are dropped before the years are unstacked into columns. *)
Definition pivot_table (df : frame) : pivot :=
  let cells := omap (λ e, q ← snd e; Some (fst e, q)) (agged df) in
  Pivot (unique ((λ c, fst (fst c)) <$> cells))
        (sorted Z.leb (unique ((λ c, snd (fst c)) <$> cells)))
        cells.

(** [DataFrame.empty] *)
Definition empty (p : pivot) : bool :=
  bool_decide (p_index p = []) || bool_decide (p_columns p = []).

(** [p.loc[keys]] with a list of labels: every label must be a row label. *)
Definition loc (p : pivot) (keys : list string) : result pivot :=
  match filter (λ k, k ∉ p_index p) keys with
  | [] => Ok (Pivot keys (p_columns p)
                (filter (λ c, fst (fst c) ∈ keys) (p_cells p)))
  | missing => Raise (KeyError missing)
  end.

(** Lines 123-127: [None] when the guarded block is skipped. *)
Definition pivot_subset (df : frame) : result (option pivot) :=
  let pivot_data := pivot_table df in
  if empty pivot_data then Ok None
  else
    sub ← loc pivot_data (top_stocks df);
    Ok (Some sub).

(** *** Bucketed distribution (lines 101-104) *)

Definition bins : list Q := [0; 20; 40; 60; 80; 100]%Q.
Definition labels : list string := ["0-20"; "20-40"; "40-60"; "60-80"; "80-100"].

Definition Qlt_bool (a b : Q) : bool := negb (Qle_bool b a).

(** [pd.cut(x, bins)] with the defaults [right=True],
    [include_lowest=False]: the position of the interval (lo, hi] holding
    the value, NaN outside all of them. *)
Fixpoint cut_from (i : nat) (bs : list Q) (x : Q) : option nat :=
  match bs with
  | lo :: (hi :: _) as rest =>
      if Qlt_bool lo x && Qle_bool x hi then Some i
      else cut_from (S i) rest x
  | _ => None
  end.

Definition cut (bs : list Q) (x : option Q) : option nat :=
  v ← x; cut_from 0 bs v.

(** [value_counts().sort_index()] of the categorical column: one count per
    label, in label order; NaN is not counted. *)
Definition distribution (df : frame) : list (string * nat) :=
  imap (λ i lbl,
          (lbl, length (filter (λ r, cut bins (index_value r) = Some i) df)))
       labels.

(** *** Year-over-year change (lines 173-174) *)

(** Float results: NaN, signed infinity or a finite value. *)
Inductive fval :=
  | NaN
  | Inf (neg : bool)
  | Num (q : Q).

Definition of_cell (o : option Q) : fval :=
  match o with
  | Some q => Num q
  | None => NaN
  end.

Definition isneg (q : Q) : bool := Qlt_bool q 0.

Definition fdiv (a b : fval) : fval :=
  match a, b with
  | Num x, Num y =>
      if Qeq_bool y 0 then (if Qeq_bool x 0 then NaN else Inf (isneg x))
      else Num (x / y)
  | Num _, Inf _ => Num 0
  | Inf s, Num y => Inf (xorb s (isneg y))
  | _, _ => NaN
  end.

Definition fsub (a b : fval) : fval :=
  match a, b with
  | Num x, Num y => Num (x - y)
  | Num _, Inf s => Inf (negb s)
  | Inf s, Num _ => Inf s
  | Inf s1, Inf s2 => if Bool.eqb s1 s2 then NaN else Inf s1
  | _, _ => NaN
  end.

Definition fmul (a b : fval) : fval :=
  match a, b with
  | Num x, Num y => Num (x * y)
  | Num x, Inf s | Inf s, Num x =>
      if Qeq_bool x 0 then NaN else Inf (xorb s (isneg x))
  | Inf s1, Inf s2 => Inf (xorb s1 s2)
  | _, _ => NaN
  end.

(** [Series.shift(1)] *)
Definition shift1 (l : list fval) : list fval :=
  take (length l) (NaN :: l).

(** [Series.pct_change()] read in exact arithmetic: [s / s.shift(1) - 1],
    no filling of NaN. *)
Definition pct_change (l : list fval) : list fval :=
  zip_with (λ cur prev, fsub (fdiv cur prev) (Num 1)) l (shift1 l).

(** [yearly_mean['变化率']] read in exact arithmetic. *)
Definition change_rate (df : frame) : list fval :=
  (λ v, fmul v (Num 100)) <$>
    pct_change ((λ e, of_cell (snd e)) <$> yearly_mean df).

(** *** The same lines on binary64 values *)











(** ** The loader (lines 20-33) *)

(** What the loader sees of the outside: which paths exist and what the
    spreadsheet reader makes of each. *)
Record world := World {
  path_exists : string → bool;                  (* os.path.exists *)
  read_excel : string → result (list raw_row)   (* pd.read_excel *)
}.

Inductive event :=
  | Exists (path : string)
  | ReadExcel (path : string)
  | StError (msg : string).

Definition not_found : string := "❌ 未找到数据文件".

Definition data_files : list string :=
  ["data.xlsx";
   "两版合并后的年报数据_完整版.xlsx";
   "data/两版合并后的年报数据_完整版.xlsx"].

(** The [for path in data_files] loop and what follows it: the calls made,
    in order, and the value returned ([None] for Python's [None]). *)
Fixpoint load_loop (w : world) (paths : list string)
    : list event * result (option (list raw_row)) :=
  match paths with
  | [] => ([StError not_found], Ok None)
  | path :: rest =>
      if path_exists w path
      then ([Exists path; ReadExcel path], t ← read_excel w path; Ok (Some t))
      else let '(tr, r) := load_loop w rest in (Exists path :: tr, r)
  end.

Definition load_data (w : world) : list event * result (option (list raw_row)) :=
  load_loop w data_files.

(** ** Sidebar defaults (lines 49-51) *)

(** [available_stocks[0] if available_stocks else "600003"] *)
Definition default_stock (df : frame) : string :=
  match available_stocks df with
  | k :: _ => k
  | [] => "600003"
  end.

(** [l[-1]] *)
Definition iloc_last {A} (l : list A) : result A :=
  match last l with
  | Some a => Ok a
  | None => Raise IndexError
  end.

(** The bounds handed to the year slider, [int(available_years[0])] and
    [int(available_years[-1])], evaluated in that order. *)
Definition slider_bounds (df : frame) : result (Z * Z) :=
  lo ← iloc0 (available_years df);
  hi ← iloc_last (available_years df);
  Ok (lo, hi).

(** ** Overview metrics (lines 65-68) *)

Definition qmax (a b : Q) : Q := if Qle_bool a b then b else a.

(** [Series.max()] with [skipna=True]: NaN when no value is present. *)
Definition col_max (l : list (option Q)) : option Q :=
  match dropna l with
  | [] => None
  | x :: xs => Some (foldl qmax x xs)
  end.

(** [Series.min()] and [Series.max()] of the year column: NaN on an empty
    column. *)
Definition year_min (l : list Z) : option Z :=
  match l with
  | [] => None
  | y :: ys => Some (foldl Z.min y ys)
  end.

Definition year_max (l : list Z) : option Z :=
  match l with
  | [] => None
  | y :: ys => Some (foldl Z.max y ys)
  end.

(** [Series.nunique()] of the code column. *)
Definition nunique (codes : list string) : nat := length (unique codes).

Record overview_metrics := Overview {
  o_mean : option Q;       (* 平均指数 *)
  o_max : option Q;        (* 指数最大值 *)
  o_count : nat;           (* 企业数量 *)
  o_year_min : option Z;   (* 年份范围 *)
  o_year_max : option Z
}.

Definition overview (df : frame) : overview_metrics :=
  Overview (mean (index_value <$> df))
           (col_max (index_value <$> df))
           (nunique (code <$> df))
           (year_min (year <$> df))
           (year_max (year <$> df)).

(** ** Trend chart switch (line 86) *)

(** [len(company_all_data) > 1]: the line chart is drawn, otherwise the
    warning is shown. *)
Definition show_trend (df : frame) (stock_search : string) : bool :=
  bool_decide (1 < length (company_all_data df stock_search))%nat.

(** ** Yearly statistics (lines 142-146) *)

(** [df.groupby('年份').agg({'数字化转型指数': 'mean', '股票代码':
    'nunique'}).reset_index()] *)
Definition yearly_stats (df : frame) : list (Z * option Q * nat) :=
  (λ y, (y, mean (index_value <$> year_group y df),
            nunique (code <$> year_group y df))) <$> year_keys df.

(** ** Names of the top 20 (line 134) *)

(** [Series.map(dict)]: a key the dict lacks gives NaN. *)
Definition map_dict (m : gmap string (option string)) (k : string)
    : option string :=
  default None (m !! k).

(** [top20['企业名称'] = top20['股票代码'].map(stock_name_map)] *)
Definition top20_named (df : frame) : list (string * option Q * option string) :=
  (λ e, (fst e, snd e, map_dict (stock_name_map df) (fst e))) <$> top20 df.

(** * Reference definitions

    The quantities the properties below compare the code with, worded as
    the specification words them. *)

(** The rank as the specification words it: the number of rows of the
    whole table in the selected year whose index is at least [v]. *)
Fixpoint spec_rank (df : frame) (selected_year : Z) (v : option Q) : nat :=
  match df with
  | [] => 0
  | r :: df' =>
      (if bool_decide (year r = selected_year) && ge (index_value r) v
       then 1 else 0)%nat + spec_rank df' selected_year v
  end.

Fixpoint spec_total (df : frame) (selected_year : Z) : nat :=
  match df with
  | [] => 0
  | r :: df' =>
      (if bool_decide (year r = selected_year) then 1 else 0)%nat
      + spec_total df' selected_year
  end.



(** The first non-missing raw name among the rows of an identifier, as the
    specification words the registry. *)
Definition first_raw_name (raw : list raw_row) (k : string) : option string :=
  first (raw_name <$> filter (λ r, str (raw_code r) = k) raw).

(** The buckets as the specification words them: [0,20), [20,40),
    [40,60), [60,80) and [80,100]. *)
Definition spec_bucket (x : Q) : option nat :=
  if Qle_bool 0 x && Qlt_bool x 20 then Some 0%nat
  else if Qle_bool 20 x && Qlt_bool x 40 then Some 1%nat
  else if Qle_bool 40 x && Qlt_bool x 60 then Some 2%nat
  else if Qle_bool 60 x && Qlt_bool x 80 then Some 3%nat
  else if Qle_bool 80 x && Qle_bool x 100 then Some 4%nat
  else None.

(** The values the distribution counts: those in (0, 100]. *)
Definition in_range (o : option Q) : bool :=
  match o with
  | Some q => Qlt_bool 0 q && Qle_bool q 100
  | None => false
  end.





(** The whole series in [nlargest] order, of which [nlargest n] is the
    first [n] entries. *)
Definition ranking {K} (s : list (K * option Q)) : list (K * option Q) :=
  sorted (λ a b, ge (snd a) (snd b)) (filter (λ e, is_Some (snd e)) s)
  ++ filter (λ e, ¬ is_Some (snd e)) s.




(** * Sample inputs *)

Definition ex_names : list raw_row :=
  [RawRow (CodeStr "A") None 1999 (Some 50%Q);
   RawRow (CodeStr "A") (Some "Acme") 2000 (Some 60%Q)].

Definition ex_two_years : frame :=
  [Row "600003" (Some "Acme") 1998 (Some 50%Q);
   Row "600003" (Some "Acme") 1999 (Some 60%Q)].

Definition ex_missing_index : frame :=
  [Row "A" (Some "Acme") 1999 (Some 50%Q);
   Row "B" (Some "Bee") 1999 None].

Definition ex_boundaries : frame :=
  [Row "A" (Some "Acme") 1999 (Some 0%Q);
   Row "B" (Some "Bee") 1999 (Some 20%Q)].


Definition ex_boundaries_years : frame :=
  [Row "A" (Some "Acme") 1998 (Some 0%Q);
   Row "A" (Some "Acme") 1999 (Some 20%Q)].

Definition ex_world : world :=
  World (λ p, bool_decide (p ≠ "data.xlsx"))
        (λ p, if bool_decide (p = "两版合并后的年报数据_完整版.xlsx")
              then Ok ex_names else Raise (FileError p)).

(** The first candidate exists but does not parse; the second is fine. *)
Definition ex_world_unreadable : world :=
  World (λ _, true)
        (λ p, if bool_decide (p = "data.xlsx")
              then Raise (FileError p) else Ok ex_names).

(** * Properties *)

(** ** Sorting and deduplication *)

Section ListOpsFacts.
Context {A : Type}.
Implicit Types (le : A → A → bool) (l : list A).

Lemma insert_by_Permutation le x l : insert_by le x l ≡ₚ x :: l.
Proof.
  induction l as [|y l IH]; simpl; [done|].
  destruct (le x y); [done|].
  rewrite IH. apply Permutation_swap.
Qed.

Lemma sorted_Permutation le l : sorted le l ≡ₚ l.
Proof.
  induction l as [|x l IH]; simpl; [done|].
  rewrite insert_by_Permutation. by f_equiv.
Qed.

Lemma elem_of_sorted le l x : x ∈ sorted le l ↔ x ∈ l.
Proof. by rewrite sorted_Permutation. Qed.

Lemma length_sorted le l : length (sorted le l) = length l.
Proof. by rewrite sorted_Permutation. Qed.

Lemma NoDup_sorted le l : NoDup l → NoDup (sorted le l).
Proof. by rewrite sorted_Permutation. Qed.

(** Inserting into a list ordered by [R] keeps it ordered, as long as
    [x] is left of every element it is put before, and every element it
    is put behind is left of it. *)
Lemma insert_by_StronglySorted (R : relation A) le x l :
  (∀ y, y ∈ l → le x y = true → R x y) →
  (∀ y, y ∈ l → le x y = false → R y x) →
  (∀ y z, y ∈ l → z ∈ l → le x y = true → R y z → R x z) →
  StronglySorted R l → StronglySorted R (insert_by le x l).
Proof.
  intros Hlt Hge Htr Hs.
  induction Hs as [|y l Hs IH Hall]; simpl.
  - repeat constructor.
  - destruct (le x y) eqn:E.
    + constructor; [by constructor|].
      apply Forall_cons. split.
      * apply Hlt; [left|done].
      * apply Forall_forall. intros z Hz.
        rewrite Forall_forall in Hall.
        apply (Htr y z); [left|by right|done|by apply Hall].
    + constructor.
      * apply IH.
        -- intros z Hz. apply Hlt. by right.
        -- intros z Hz. apply Hge. by right.
        -- intros z1 z2 H1 H2. apply Htr; by right.
      * apply Forall_forall. intros z Hz.
        apply (elem_of_Permutation_proper _ _ _ (insert_by_Permutation le x l)) in Hz.
        apply elem_of_cons in Hz as [->|Hz].
        -- apply Hge; [left|done].
        -- rewrite Forall_forall in Hall. by apply Hall.
Qed.

Context `{EqDecision A}.

Lemma elem_of_unique l x : x ∈ unique l ↔ x ∈ l.
Proof.
  induction l as [|y l IH]; simpl; [done|].
  rewrite !elem_of_cons, list_elem_of_filter, IH.
  destruct (decide (x = y)); tauto.
Qed.

Lemma NoDup_unique l : NoDup (unique l).
Proof.
  induction l as [|y l IH]; simpl; [constructor|].
  constructor.
  - rewrite list_elem_of_filter. intros [Hne _]. by apply Hne.
  - by apply NoDup_filter.
Qed.
End ListOpsFacts.

(** ** Preprocessing and the name registry *)

Lemma code_preprocess raw : code <$> preprocess raw = (str ∘ raw_code) <$> raw.
Proof.
  unfold preprocess, fillna_name, astype_str.
  rewrite <- !list_fmap_compose. done.
Qed.

Lemma preprocess_as_raw raw : preprocess (as_raw (preprocess raw)) = preprocess raw.
Proof.
  unfold preprocess, as_raw, fillna_name, astype_str.
  rewrite <- !list_fmap_compose.
  apply list_fmap_ext. intros _ r _. simpl.
  by destruct (raw_name r).
Qed.

Example preprocess_ex :
  preprocess [RawRow (CodeInt 600003) None 1999 (Some (50#1))]
  = [Row "600003" (Some sentinel) 1999 (Some (50#1))].
Proof. vm_compute. reflexivity. Qed.

Lemma code_keys_elem df k : k ∈ code_keys df ↔ k ∈ code <$> df.
Proof. unfold code_keys. by rewrite elem_of_sorted, elem_of_unique. Qed.

Lemma code_keys_NoDup df : NoDup (code_keys df).
Proof. apply NoDup_sorted, NoDup_unique. Qed.

Lemma stock_name_map_lookup df k :
  k ∈ code <$> df →
  stock_name_map df !! k = Some (first (name <$> code_group k df)).
Proof.
  intros Hk. unfold stock_name_map.
  apply elem_of_list_to_map_1.
  - rewrite <- list_fmap_compose. simpl.
    rewrite (list_fmap_ext _ id (code_keys df)) by done.
    rewrite list_fmap_id. apply code_keys_NoDup.
  - apply list_elem_of_fmap. exists k. split; [done|].
    by apply code_keys_elem.
Qed.

Lemma stock_name_map_lookup_None df k :
  k ∉ code <$> df → stock_name_map df !! k = None.
Proof.
  intros Hk. unfold stock_name_map.
  apply not_elem_of_list_to_map_1.
  rewrite <- list_fmap_compose. simpl.
  rewrite (list_fmap_ext _ id (code_keys df)) by done.
  rewrite list_fmap_id. by rewrite code_keys_elem.
Qed.

Lemma code_group_absent df k : k ∉ code <$> df → code_group k df = [].
Proof.
  intros Hk. unfold code_group.
  induction df as [|r df IH]; [done|].
  rewrite fmap_cons, not_elem_of_cons in Hk. destruct Hk as [Hne Hk].
  rewrite filter_cons_False by congruence.
  by apply IH.
Qed.

(** C9: the preprocessing step is idempotent: run on an already
    preprocessed frame it yields the same frame, the same sorted code list,
    the same sorted year list and the same code-to-name map. *)
Theorem preprocess_idempotent (raw : list raw_row) :
  let df := preprocess raw in
  let df' := preprocess (as_raw df) in
  df' = df
  ∧ available_stocks df' = available_stocks df
  ∧ available_years df' = available_years df
  ∧ stock_name_map df' = stock_name_map df.
Proof. simpl. by rewrite preprocess_as_raw. Qed.

(** C4, as the code has it: the registry maps an identifier to the name of
    the first row carrying it, taken after missing names were replaced by
    the sentinel; so it holds the sentinel when that first row has no
    name, whatever later rows say. *)
Theorem stock_name_map_first_row (pre post : list raw_row) (r : raw_row) :
  (∀ r', r' ∈ pre → str (raw_code r') ≠ str (raw_code r)) →
  stock_name_map (preprocess (pre ++ r :: post)) !! str (raw_code r)
  = Some (Some (default sentinel (raw_name r))).
Proof.
  intros Hpre.
  rewrite stock_name_map_lookup.
  2:{ rewrite code_preprocess, fmap_app, fmap_cons.
      apply elem_of_app. right. left. }
  f_equal. unfold code_group, preprocess, fillna_name, astype_str.
  rewrite !fmap_app, filter_app, !fmap_cons, fmap_app. simpl.
  rewrite filter_cons_True by done.
  replace (filter _ _) with (@nil row).
  - simpl. by destruct (raw_name r).
  - symmetry. apply (code_group_absent _ (str (raw_code r))).
    rewrite <- !list_fmap_compose. intros Hin.
    apply list_elem_of_fmap in Hin as (r' & Heq & Hin).
    by apply (Hpre r' Hin).
Qed.

Lemma stock_name_map_first_row_witness :
  stock_name_map (preprocess ex_names) !! "A" = Some (Some sentinel).
Proof.
  apply (stock_name_map_first_row [] (tail ex_names)
           (RawRow (CodeStr "A") None 1999 (Some 50%Q))).
  intros r' Hr'. by apply elem_of_nil in Hr'.
Defined.

(** C4 as stated fails: the first row of "A" has no name and the second
    has one, yet the registry holds the sentinel and not that name. *)
Lemma registry_not_first_non_missing :
  first_raw_name ex_names "A" = Some "Acme"
  ∧ stock_name_map (preprocess ex_names) !! "A" = Some (Some sentinel)
  ∧ stock_name_map (preprocess ex_names) !! "A"
    ≠ Some (first_raw_name ex_names "A").
Proof. split; [|split]; [vm_compute; reflexivity..|]. by vm_compute. Qed.

(** ** Query selector and selection metrics *)

Lemma filtered_data_absent df s y : s ∉ code <$> df → filtered_data df s y = [].
Proof.
  intros Hs. unfold filtered_data.
  induction df as [|r df IH]; [done|].
  rewrite fmap_cons, not_elem_of_cons in Hs. destruct Hs as [Hne Hs].
  rewrite filter_cons_False by (intros [? _]; congruence).
  by apply IH.
Qed.

(** C8: for an identifier that no row carries, both subsets are empty, the
    displayed name is the sentinel, and the selection metrics are skipped
    without an exception. *)
Theorem unknown_identifier (df : frame) (stock_search : string) (selected_year : Z) :
  stock_search ∉ code <$> df →
  company_all_data df stock_search = []
  ∧ filtered_data df stock_search selected_year = []
  ∧ display_name df stock_search = sentinel
  ∧ current_panel df stock_search selected_year = Ok None.
Proof.
  intros Hs. split; [|split; [|split]].
  - unfold company_all_data. fold (code_group stock_search df).
    by rewrite (code_group_absent df stock_search Hs).
  - by apply filtered_data_absent.
  - unfold display_name. by rewrite stock_name_map_lookup_None.
  - unfold current_panel. by rewrite filtered_data_absent.
Qed.

Lemma unknown_identifier_witness :
  company_all_data ex_two_years "000001" = []
  ∧ filtered_data ex_two_years "000001" 1999 = []
  ∧ display_name ex_two_years "000001" = sentinel
  ∧ current_panel ex_two_years "000001" 1999 = Ok None.
Proof.
  apply (unknown_identifier ex_two_years "000001" 1999).
  vm_compute. intros H. by repeat (apply elem_of_cons in H as [H|H]; [done|]);
    apply elem_of_nil in H.
Defined.

Lemma filter_key_absent (df : frame) s y :
  (s, y) ∉ (λ r, (code r, year r)) <$> df → filtered_data df s y = [].
Proof.
  intros Hs. unfold filtered_data.
  induction df as [|r df IH]; [done|].
  rewrite fmap_cons, not_elem_of_cons in Hs. destruct Hs as [Hne Hs].
  rewrite filter_cons_False by (intros [? ?]; congruence).
  by apply IH.
Qed.

(** C7: when no two rows share a (code, year) pair, the exact-match subset
    of every pair that occurs is the one row carrying it, and the index
    read from the subset is that row's index. *)
Theorem exact_match_unique (df : frame) (r : row) :
  NoDup ((λ r, (code r, year r)) <$> df) →
  r ∈ df →
  filtered_data df (code r) (year r) = [r]
  ∧ iloc0 (index_value <$> filtered_data df (code r) (year r))
    = Ok (index_value r).
Proof.
  intros Hnd Hr.
  assert (filtered_data df (code r) (year r) = [r]) as ->; [|done].
  unfold filtered_data.
  induction df as [|r' df IH]; [by apply elem_of_nil in Hr|].
  rewrite fmap_cons in Hnd. apply NoDup_cons in Hnd as [Hnotin Hnd].
  apply elem_of_cons in Hr as [<-|Hr].
  - rewrite filter_cons_True by done.
    f_equal. by apply filter_key_absent.
  - rewrite filter_cons_False.
    + by apply IH.
    + intros [Hc Hy]. apply Hnotin.
      apply list_elem_of_fmap. exists r. by rewrite Hc, Hy.
Qed.

Lemma exact_match_unique_witness :
  filtered_data ex_two_years "600003" 1999
  = [Row "600003" (Some "Acme") 1999 (Some 60%Q)]
  ∧ iloc0 (index_value <$> filtered_data ex_two_years "600003" 1999)
    = Ok (Some 60%Q).
Proof.
  apply (exact_match_unique ex_two_years
           (Row "600003" (Some "Acme") 1999 (Some 60%Q))).
  - by apply (bool_decide_unpack _).
  - right. left.
Defined.

Lemma current_rank_spec df y v : current_rank df y v = spec_rank df y v.
Proof.
  unfold current_rank, current_year_data.
  induction df as [|r df IH]; [done|]. simpl.
  rewrite <- IH. clear IH.
  destruct (decide (year r = y)) as [Hy|Hy].
  - rewrite (filter_cons_True _ r df Hy), bool_decide_eq_true_2 by done. simpl.
    destruct (ge (index_value r) v) eqn:E.
    + by rewrite filter_cons_True.
    + rewrite filter_cons_False; [done|]. by rewrite E.
  - by rewrite (filter_cons_False _ r df Hy), bool_decide_eq_false_2.
Qed.

Lemma current_total_spec df y : length (current_year_data df y) = spec_total df y.
Proof.
  unfold current_year_data.
  induction df as [|r df IH]; [done|]. simpl.
  rewrite <- IH. clear IH.
  destruct (decide (year r = y)) as [Hy|Hy].
  - by rewrite (filter_cons_True _ r df Hy), bool_decide_eq_true_2.
  - by rewrite (filter_cons_False _ r df Hy), bool_decide_eq_false_2.
Qed.

Lemma ge_refl (q : Q) : ge (Some q) (Some q) = true.
Proof. simpl. apply Qle_bool_iff. apply Qle_refl. Qed.

Lemma filtered_data_elem df s y r :
  r ∈ filtered_data df s y ↔ r ∈ df ∧ code r = s ∧ year r = y.
Proof. unfold filtered_data. rewrite list_elem_of_filter. tauto. Qed.

Lemma current_rank_pos df y v r :
  r ∈ df → year r = y → ge (index_value r) v = true →
  (1 ≤ current_rank df y v)%nat.
Proof.
  intros Hr Hy Hge. unfold current_rank, current_year_data.
  assert (r ∈ filter (λ r, ge (index_value r) v = true)
                (filter (λ r, year r = y) df)) as Hin.
  { by rewrite !list_elem_of_filter. }
  destruct (filter _ (filter _ df)); [by apply elem_of_nil in Hin|].
  simpl. lia.
Qed.

Lemma current_rank_nan df y : current_rank df y None = 0%nat.
Proof.
  unfold current_rank.
  induction (current_year_data df y) as [|r l IH]; [done|].
  rewrite filter_cons_False; [done|].
  unfold ge. by destruct (index_value r).
Qed.

(** C1, as the code has it: when the exact-match subset is not empty the
    rank shown is the number of rows of the table in the selected year
    whose index is at least the index of the first matching row; it never
    exceeds the number of rows of that year; it is at least 1 when the
    selected index is present, and 0 when the selected index is missing. *)
Theorem rank_of_selection (df : frame) (stock_search : string)
    (selected_year : Z) (r : row) (rest : frame) :
  filtered_data df stock_search selected_year = r :: rest →
  ∃ m, current_panel df stock_search selected_year = Ok (Some m)
    ∧ m_index m = index_value r
    ∧ m_rank m = spec_rank df selected_year (index_value r)
    ∧ m_total m = spec_total df selected_year
    ∧ (m_rank m ≤ m_total m)%nat
    ∧ (is_Some (index_value r) → (1 ≤ m_rank m)%nat)
    ∧ (index_value r = None → m_rank m = 0%nat).
Proof.
  intros Hfd. unfold current_panel. rewrite Hfd. simpl.
  eexists. split; [done|]. simpl.
  split; [done|]. split; [apply current_rank_spec|].
  split; [apply current_total_spec|].
  split; [apply length_filter|]. split.
  - intros [q Hq].
    assert (r ∈ filtered_data df stock_search selected_year) as Hin
      by (rewrite Hfd; left).
    apply filtered_data_elem in Hin as (Hin & _ & Hy).
    apply (current_rank_pos df selected_year _ r Hin Hy).
    rewrite Hq. apply ge_refl.
  - intros ->. apply current_rank_nan.
Qed.

Lemma rank_of_selection_witness :
  ∃ m, current_panel ex_two_years "600003" 1999 = Ok (Some m)
    ∧ m_index m = Some 60%Q
    ∧ m_rank m = spec_rank ex_two_years 1999 (Some 60%Q)
    ∧ m_total m = spec_total ex_two_years 1999
    ∧ (m_rank m ≤ m_total m)%nat
    ∧ (is_Some (Some 60%Q) → (1 ≤ m_rank m)%nat)
    ∧ (Some 60%Q = None → m_rank m = 0%nat).
Proof.
  apply (rank_of_selection ex_two_years "600003" 1999
           (Row "600003" (Some "Acme") 1999 (Some 60%Q)) []).
  reflexivity.
Defined.

(** C1 as stated fails: the pair ("B", 1999) has an exact-match row, its
    index cell is empty, and the rank shown is 0 of 2. *)
Lemma rank_of_missing_index_is_zero :
  filtered_data ex_missing_index "B" 1999 = [Row "B" (Some "Bee") 1999 None]
  ∧ current_panel ex_missing_index "B" 1999
    = Ok (Some (Metrics (Some "Bee") 1999 None 0 2))
  ∧ ¬ (1 ≤ current_rank ex_missing_index 1999 None)%nat.
Proof.
  split; [reflexivity|]. split; [reflexivity|].
  vm_compute. lia.
Qed.

(** ** The loader *)

Lemma load_loop_spec (w : world) (paths : list string) :
  load_loop w paths =
  match list_find (λ p, path_exists w p = true) paths with
  | Some (i, p) =>
      ((Exists <$> take (S i) paths) ++ [ReadExcel p],
       t ← read_excel w p; Ok (Some t))
  | None => ((Exists <$> paths) ++ [StError not_found], Ok None)
  end.
Proof.
  induction paths as [|p paths IH]; [done|].
  cbn [load_loop list_find]. rewrite IH. clear IH.
  destruct (path_exists w p) eqn:E.
  - by rewrite decide_True.
  - rewrite decide_False by congruence.
    destruct (list_find _ paths) as [[i q]|]; done.
Qed.

(** C5: the loader probes the candidate paths in their fixed order up to
    the first one that exists, hands exactly that one to the spreadsheet
    reader and returns what the reader returns (no later path is probed or
    read); when none exists it probes them all, reports the error message
    and returns no table, reading nothing. *)
Theorem load_data_first_existing (w : world) :
  load_data w =
  match list_find (λ p, path_exists w p = true) data_files with
  | Some (i, p) =>
      ((Exists <$> take (S i) data_files) ++ [ReadExcel p],
       t ← read_excel w p; Ok (Some t))
  | None => ((Exists <$> data_files) ++ [StError not_found], Ok None)
  end.
Proof. apply load_loop_spec. Qed.

Example load_data_second_path :
  load_data ex_world
  = ([Exists "data.xlsx"; Exists "两版合并后的年报数据_完整版.xlsx";
      ReadExcel "两版合并后的年报数据_完整版.xlsx"],
     Ok (Some ex_names)).
Proof. vm_compute. reflexivity. Qed.

Example load_data_no_file :
  load_data (World (λ _, false) (λ _, Ok []))
  = ([Exists "data.xlsx"; Exists "两版合并后的年报数据_完整版.xlsx";
      Exists "data/两版合并后的年报数据_完整版.xlsx"; StError not_found],
     Ok None).
Proof. vm_compute. reflexivity. Qed.

(** ** Bucketed distribution *)

Lemma Qlt_bool_iff (a b : Q) : Qlt_bool a b = true ↔ (a < b)%Q.
Proof.
  unfold Qlt_bool. rewrite negb_true_iff.
  split.
  - intros H. apply Qnot_le_lt. intros Hle.
    apply Qle_bool_iff in Hle. congruence.
  - intros H. destruct (Qle_bool b a) eqn:E; [|done].
    apply Qle_bool_iff in E. exfalso. by apply (Qlt_not_le a b).
Qed.

Lemma Qle_bool_reflect (a b : Q) : reflect (a <= b)%Q (Qle_bool a b).
Proof. apply iff_reflect. symmetry. apply Qle_bool_iff. Qed.

Lemma Qlt_bool_reflect (a b : Q) : reflect (a < b)%Q (Qlt_bool a b).
Proof. apply iff_reflect. symmetry. apply Qlt_bool_iff. Qed.

Lemma cut_bins_unfold (q : Q) :
  cut bins (Some q) =
  if Qlt_bool 0 q && Qle_bool q 20 then Some 0%nat
  else if Qlt_bool 20 q && Qle_bool q 40 then Some 1%nat
  else if Qlt_bool 40 q && Qle_bool q 60 then Some 2%nat
  else if Qlt_bool 60 q && Qle_bool q 80 then Some 3%nat
  else if Qlt_bool 80 q && Qle_bool q 100 then Some 4%nat
  else None.
Proof. reflexivity. Qed.

Ltac case_bounds :=
  repeat match goal with
  | |- context [Qlt_bool ?a ?b] => destruct (Qlt_bool_reflect a b)
  | |- context [Qle_bool ?a ?b] => destruct (Qle_bool_reflect a b)
  end; simpl.

Lemma cut_bins_bucket (q : Q) (i : nat) :
  cut bins (Some q) = Some i ↔
  ∃ lo hi, bins !! i = Some lo ∧ bins !! S i = Some hi ∧ (lo < q ∧ q <= hi)%Q.
Proof.
  rewrite cut_bins_unfold. split.
  - case_bounds; intros [= <-]; do 2 eexists; (split; [reflexivity|]);
      (split; [reflexivity|]); split; assumption.
  - intros (lo & hi & Hlo & Hhi & Hl & Hh).
    do 5 (destruct i as [|i]; [injection Hlo as <-; injection Hhi as <-;
            case_bounds; first [reflexivity | exfalso; lra]|]).
    destruct i; discriminate.
Qed.

Lemma cut_in_range (o : option Q) :
  in_range o = bool_decide (is_Some (cut bins o)).
Proof.
  destruct o as [q|]; [|done].
  rewrite cut_bins_unfold. unfold in_range.
  case_bounds; first [reflexivity | exfalso; lra].
Qed.

Lemma cut_bins_lt (o : option Q) (i : nat) : cut bins o = Some i → (i < 5)%nat.
Proof.
  destruct o as [q|]; [|done]. rewrite cut_bins_unfold.
  case_bounds; intros [= <-]; lia.
Qed.

Lemma distribution_unfold (df : frame) :
  distribution df =
  (λ '(i, lbl), (lbl, length (filter (λ r, cut bins (index_value r) = Some i) df)))
  <$> [(0%nat, "0-20"); (1%nat, "20-40"); (2%nat, "40-60");
       (3%nat, "60-80"); (4%nat, "80-100")].
Proof. reflexivity. Qed.

Lemma distribution_sum (df : frame) :
  sum_list (snd <$> distribution df)
  = length (filter (λ r, in_range (index_value r) = true) df).
Proof.
  rewrite distribution_unfold.
  cbn [fmap list_fmap snd sum_list sum_list_with]. unfold id.
  induction df as [|r df IH]; [done|].
  rewrite !filter_cons, cut_in_range.
  pose proof (cut_bins_lt (index_value r)) as Hlt.
  destruct (cut bins (index_value r)) as [i|].
  - specialize (Hlt i eq_refl).
    rewrite (decide_True (P := bool_decide _ = true))
      by (apply bool_decide_eq_true; eauto).
    cbn [length]. rewrite <- IH.
    do 5 (destruct i as [|i];
          [repeat (first [rewrite decide_True by done
                         | rewrite decide_False by done]); cbn [length]; lia|]).
    lia.
  - by rewrite !decide_False.
Qed.

(** C2, as the code has it: the five buckets are the intervals (0,20],
    (20,40], (40,60], (60,80] and (80,100], open on the left and closed on
    the right; a value gets a bucket exactly when it lies in (0,100], and
    then a single one; the distribution lists the five labels in order, and
    its counts add up to the number of rows whose index lies in (0,100]
    (rows with index 0, an index outside [0,100] or no index are left
    out). *)
Theorem distribution_right_closed (df : frame) :
  (∀ q i, cut bins (Some q) = Some i ↔
          ∃ lo hi, bins !! i = Some lo ∧ bins !! S i = Some hi
                   ∧ (lo < q ∧ q <= hi)%Q)
  ∧ (∀ o, is_Some (cut bins o) ↔ in_range o = true)
  ∧ fst <$> distribution df = labels
  ∧ sum_list (snd <$> distribution df)
    = length (filter (λ r, in_range (index_value r) = true) df).
Proof.
  split; [apply cut_bins_bucket|].
  split; [|split; [reflexivity|apply distribution_sum]].
  intros o. rewrite cut_in_range. by rewrite bool_decide_eq_true.
Qed.

(** C2 as stated fails: 20 is counted in the first bucket, not in the
    second, and 0 is in no bucket, so the counts of a table whose two
    indices are 0 and 20 add up to 1, not to its 2 rows. *)
Lemma boundaries_close_to_the_right :
  spec_bucket 20 = Some 1%nat ∧ cut bins (Some 20%Q) = Some 0%nat
  ∧ spec_bucket 0 = Some 0%nat ∧ cut bins (Some 0%Q) = None
  ∧ distribution ex_boundaries
    = [("0-20", 1); ("20-40", 0); ("40-60", 0); ("60-80", 0); ("80-100", 0)]%nat
  ∧ sum_list (snd <$> distribution ex_boundaries) ≠ length ex_boundaries.
Proof. repeat split; try (vm_compute; reflexivity). by vm_compute. Qed.

(** ** Order of the group keys *)

Lemma StronglySorted_weaken {A} (R1 R2 : relation A) (l : list A) :
  (∀ x y, x ∈ l → y ∈ l → R1 x y → R2 x y) →
  StronglySorted R1 l → StronglySorted R2 l.
Proof.
  intros Himp Hs. induction Hs as [|x l Hs IH Hall]; [constructor|].
  constructor.
  - apply IH. intros y z Hy Hz. apply Himp; by right.
  - rewrite Forall_forall in Hall |- *. intros y Hy.
    apply Himp; [left|by right|by apply Hall].
Qed.

Section SortedFacts.
Context {A : Type} (le : A → A → bool).
Hypothesis le_total : ∀ x y, le x y = false → le y x = true.
Hypothesis le_trans : ∀ x y z, le x y = true → le y z = true → le x z = true.

Lemma sorted_StronglySorted (l : list A) :
  StronglySorted (λ x y, le x y = true) (sorted le l).
Proof using le_total le_trans.
  induction l as [|x l IH]; simpl; [constructor|].
  apply insert_by_StronglySorted; eauto.
Qed.

Lemma sorted_strictly (l : list A) :
  NoDup l → StronglySorted (λ x y, le x y = true ∧ x ≠ y) (sorted le l).
Proof using le_total le_trans.
  intros Hnd. apply (NoDup_sorted le) in Hnd.
  pose proof (sorted_StronglySorted l) as Hs.
  induction Hs as [|x k Hs IH Hall]; [constructor|].
  apply NoDup_cons in Hnd as [Hx Hnd].
  constructor; [by apply IH|].
  rewrite Forall_forall in Hall |- *.
  intros y Hy. split; [by apply Hall|].
  intros ->. by apply Hx.
Qed.
End SortedFacts.

Lemma year_keys_ascending (df : frame) : StronglySorted Z.lt (year_keys df).
Proof.
  unfold year_keys.
  eapply StronglySorted_weaken; [|apply (sorted_strictly Z.leb)].
  - intros x y _ _ [Hle Hne]. apply Z.leb_le in Hle. lia.
  - intros x y H. apply Z.leb_gt in H. apply Z.leb_le. lia.
  - intros x y z H1 H2. apply Z.leb_le in H1, H2. apply Z.leb_le. lia.
  - apply NoDup_unique.
Qed.

Lemma year_keys_elem (df : frame) (y : Z) : y ∈ year_keys df ↔ y ∈ year <$> df.
Proof. unfold year_keys. by rewrite elem_of_sorted, elem_of_unique. Qed.


(** ** Year-over-year change *)

Lemma pct_change_lookup (l : list fval) (t : nat) (a b : fval) :
  l !! t = Some a → l !! S t = Some b →
  pct_change l !! S t = Some (fsub (fdiv b a) (Num 1)).
Proof.
  intros Ha Hb. unfold pct_change, shift1.
  rewrite lookup_zip_with, Hb. simpl.
  rewrite lookup_take_lt by (apply lookup_lt_Some in Hb; lia).
  simpl. by rewrite Ha.
Qed.


Lemma isneg_proper (x y : Q) : (x == y)%Q → isneg x = isneg y.
Proof.
  intros H. unfold isneg.
  destruct (Qlt_bool_reflect x 0), (Qlt_bool_reflect y 0); try done; exfalso; lra.
Qed.

Lemma change_rate_lookup (df : frame) (t : nat) (y0 y1 : Z) (m0 m1 : option Q) :
  yearly_mean df !! t = Some (y0, m0) →
  yearly_mean df !! S t = Some (y1, m1) →
  change_rate df !! S t
  = Some (fmul (fsub (fdiv (of_cell m1) (of_cell m0)) (Num 1)) (Num 100)).
Proof.
  intros H0 H1. unfold change_rate. rewrite list_lookup_fmap.
  erewrite pct_change_lookup; [done| |].
  - by rewrite list_lookup_fmap, H0.
  - by rewrite list_lookup_fmap, H1.
Qed.





(** *** Binary64 *)








Example yearly_change_ex :
  yearly_mean ex_two_years = [(1998, Some 50%Q); (1999, Some 60%Q)]
  ∧ change_rate ex_two_years = [NaN; Num (1000 # 50)].
Proof. split; vm_compute; reflexivity. Qed.

(** ** Order of the code keys *)

Lemma str_le_total (a b : string) : str_le a b = false → str_le b a = true.
Proof.
  intros H. destruct (String.leb_total a b) as [H'|H']; [|done].
  unfold str_le in H. congruence.
Qed.

Lemma str_le_cases (a b : string) :
  str_le a b = true → a = b ∨ String.ltb a b = true.
Proof.
  unfold str_le, String.leb, String.ltb.
  destruct (String.compare a b) eqn:E; [|by right|done].
  left. by apply String.compare_eq_iff.
Qed.

Lemma str_lt_le (a b : string) : String.ltb a b = true → str_le a b = true.
Proof.
  unfold str_le, String.leb, String.ltb.
  by destruct (String.compare a b).
Qed.

Lemma str_lt_iff (a b : string) : String.ltb a b = true ↔ String_as_OT.lt a b.
Proof.
  rewrite <- String_as_OT.cmp_lt. unfold String.ltb, String_as_OT.cmp.
  by destruct (String.compare a b).
Qed.

Lemma str_lt_trans (a b c : string) :
  String.ltb a b = true → String.ltb b c = true → String.ltb a c = true.
Proof. rewrite !str_lt_iff. apply String_as_OT.lt_trans. Qed.

Lemma str_le_trans (a b c : string) :
  str_le a b = true → str_le b c = true → str_le a c = true.
Proof.
  intros [->|H1]%str_le_cases [->|H2]%str_le_cases;
    eauto using str_lt_le, str_lt_trans.
  unfold str_le, String.leb.
  destruct (String.compare c c) eqn:E; [done..|].
  pose proof (String.compare_antisym c c) as H. rewrite E in H. done.
Qed.

Lemma code_keys_ascending (df : frame) :
  StronglySorted (λ a b, String.ltb a b = true) (code_keys df).
Proof.
  unfold code_keys.
  eapply StronglySorted_weaken;
    [|apply (sorted_strictly str_le str_le_total str_le_trans), NoDup_unique].
  intros a b _ _ [Hle Hne].
  by destruct (str_le_cases a b Hle).
Qed.

(** ** Top-N by mean *)



Lemma nlargest_ranking {K} (n : nat) (s : list (K * option Q)) :
  nlargest n s = take n (ranking s).
Proof. reflexivity. Qed.

Lemma ranking_Permutation {K} (s : list (K * option Q)) : ranking s ≡ₚ s.
Proof.
  unfold ranking. rewrite sorted_Permutation.
  apply (filter_app_complement (λ e, is_Some (snd e))).
Qed.



Lemma nlargest_subseteq {K} (n : nat) (s : list (K * option Q)) :
  nlargest n s ⊆ s.
Proof.
  rewrite nlargest_ranking. intros e He%subseteq_take.
  by rewrite ranking_Permutation in He.
Qed.

Lemma code_mean_codes (df : frame) : fst <$> code_mean df = code_keys df.
Proof.
  unfold code_mean. rewrite <- list_fmap_compose.
  rewrite (list_fmap_ext _ id (code_keys df)) by done.
  apply list_fmap_id.
Qed.







(** ** Pivot rows and the top-30 lookup *)

Lemma mean_is_Some (l : list (option Q)) (q : Q) : Some q ∈ l → is_Some (mean l).
Proof.
  intros Hq. unfold mean.
  assert (q ∈ dropna l) as Hin.
  { unfold dropna. apply list_elem_of_omap. by exists (Some q). }
  destruct (dropna l); [by apply elem_of_nil in Hin|done].
Qed.

(** A code with at least one index value is a row label of the pivot. *)
Lemma pivot_index_elem (df : frame) (r : row) :
  r ∈ df → is_Some (index_value r) → code r ∈ p_index (pivot_table df).
Proof.
  intros Hr [q Hq]. unfold pivot_table. simpl.
  apply elem_of_unique, list_elem_of_fmap.
  set (g := filter (λ r', code r' = code r ∧ year r' = year r) df).
  assert (r ∈ g) as Hg by (by apply list_elem_of_filter).
  destruct (mean_is_Some (index_value <$> g) q) as [m Hm].
  { rewrite <- Hq. by apply list_elem_of_fmap_2. }
  exists (code r, year r, m). split; [done|].
  apply list_elem_of_omap. exists (code r, year r, Some m). split; [|done].
  unfold agged. apply list_elem_of_bind. exists (code r). split.
  - apply list_elem_of_bind. exists (year r). split.
    + fold g. rewrite bool_decide_eq_false_2.
      * rewrite Hm. left.
      * intros Hnil. rewrite Hnil in Hg. by apply elem_of_nil in Hg.
    + apply year_keys_elem. by apply list_elem_of_fmap_2.
  - apply code_keys_elem. by apply list_elem_of_fmap_2.
Qed.

Lemma top_stocks_codes (df : frame) : top_stocks df ⊆ code <$> df.
Proof.
  intros k Hk. apply code_keys_elem. rewrite <- code_mean_codes.
  unfold top_stocks in Hk.
  apply list_elem_of_fmap in Hk as (e & -> & He).
  apply list_elem_of_fmap_2. by apply nlargest_subseteq in He.
Qed.

Lemma filter_none {A} (P : A → Prop) `{∀ x, Decision (P x)} (l : list A) :
  (∀ x, x ∈ l → ¬ P x) → filter P l = [].
Proof.
  intros Hl. induction l as [|x l IH]; [done|].
  rewrite filter_cons_False by (apply Hl; left).
  apply IH. intros y Hy. apply Hl. by right.
Qed.

(** The lookup is defined as soon as every identifier of the table has an
    index value in some row. *)
Lemma pivot_subset_defined (df : frame) :
  (∀ k, k ∈ code <$> df → ∃ r, r ∈ df ∧ code r = k ∧ is_Some (index_value r)) →
  ∃ o, pivot_subset df = Ok o.
Proof.
  intros Hval. unfold pivot_subset.
  destruct (empty (pivot_table df)); [by eexists|].
  unfold loc.
  replace (filter _ (top_stocks df)) with (@nil string); [by eexists|].
  symmetry. apply filter_none.
  intros k Hk%top_stocks_codes Hnot.
  destruct (Hval k Hk) as (r & Hr & <- & Hsome).
  apply Hnot. by apply pivot_index_elem.
Qed.

(** C10 at a table in which "B" has no index value: the pivot is not
    empty and has the single row "A", the top-30 list is "A", "B", and the
    lookup of its rows raises KeyError on "B". *)
Theorem pivot_lookup_missing_key :
  empty (pivot_table ex_missing_index) = false
  ∧ p_index (pivot_table ex_missing_index) = ["A"]
  ∧ top_stocks ex_missing_index = ["A"; "B"]
  ∧ pivot_subset ex_missing_index = Raise (KeyError ["B"]).
Proof. repeat split; vm_compute; reflexivity. Qed.

(** * Further properties of the page *)

(** ** Selectable codes and years *)

Lemma available_stocks_nil (df : frame) : available_stocks df = [] → df = [].
Proof.
  intros H. destruct df as [|r df]; [done|].
  assert (code r ∈ available_stocks (r :: df)) as Hin.
  { apply code_keys_elem. rewrite fmap_cons. left. }
  rewrite H in Hin. by apply elem_of_nil in Hin.
Qed.

Lemma available_years_nil (df : frame) : available_years df = [] → df = [].
Proof.
  intros H. destruct df as [|r df]; [done|].
  assert (year r ∈ available_years (r :: df)) as Hin.
  { apply year_keys_elem. rewrite fmap_cons. left. }
  rewrite H in Hin. by apply elem_of_nil in Hin.
Qed.

(** X1: the list of selectable codes is strictly ascending (so it has no
    duplicates), holds exactly the codes that occur in the table, and is as
    long as the company count of the overview. *)
Theorem available_stocks_sorted_distinct (df : frame) :
  StronglySorted (λ a b, String.ltb a b = true) (available_stocks df)
  ∧ (∀ k, k ∈ available_stocks df ↔ k ∈ code <$> df)
  ∧ length (available_stocks df) = o_count (overview df).
Proof.
  split; [apply code_keys_ascending|].
  split; [apply code_keys_elem|].
  unfold available_stocks. simpl. apply length_sorted.
Qed.

(** X2: the list of selectable years is strictly ascending and holds
    exactly the years that occur in the table. *)
Theorem available_years_sorted_distinct (df : frame) :
  StronglySorted Z.lt (available_years df)
  ∧ (∀ y, y ∈ available_years df ↔ y ∈ year <$> df).
Proof. split; [apply year_keys_ascending|apply year_keys_elem]. Qed.

(** X3: on an empty table the default code is the literal "600003";
    otherwise it is a code of the table, and no code of the table is
    smaller. *)
Theorem default_stock_least (df : frame) :
  (df = [] ∧ default_stock df = "600003")
  ∨ (default_stock df ∈ code <$> df
     ∧ ∀ r, r ∈ df → str_le (default_stock df) (code r) = true).
Proof.
  unfold default_stock.
  pose proof (code_keys_ascending df) as Hs.
  pose proof (code_keys_elem df) as Hel.
  change (code_keys df) with (available_stocks df) in Hs, Hel.
  destruct (available_stocks df) as [|k ks] eqn:E.
  - left. split; [by apply available_stocks_nil|done].
  - right. split; [apply Hel; left|].
    intros r Hr.
    assert (code r ∈ k :: ks) as [->|Hin]%elem_of_cons.
    { apply Hel. by apply list_elem_of_fmap_2. }
    + destruct (str_le k k) eqn:Hrefl; [done|].
      apply str_le_total in Hrefl as Hrefl'. congruence.
    + apply StronglySorted_cons in Hs as [Hall _].
      rewrite Forall_forall in Hall. by apply str_lt_le, Hall.
Qed.

Lemma StronglySorted_last_max (l : list Z) (hi : Z) :
  StronglySorted Z.lt l → last l = Some hi → ∀ y, y ∈ l → y ≤ hi.
Proof.
  intros Hs [l' ->]%last_Some y Hy.
  apply elem_of_app in Hy as [Hy|Hy].
  - apply Z.lt_le_incl.
    apply (StronglySorted_app_1_elem_of _ _ _ _ _ Hs Hy). left.
  - apply list_elem_of_singleton in Hy. lia.
Qed.

Lemma foldl_min_spec (l : list Z) (a : Z) :
  (foldl Z.min a l = a ∨ foldl Z.min a l ∈ l)
  ∧ foldl Z.min a l ≤ a
  ∧ ∀ y, y ∈ l → foldl Z.min a l ≤ y.
Proof.
  revert a. induction l as [|x l IH]; intros a; simpl.
  - split; [by left|]. split; [lia|].
    intros y Hy. by apply elem_of_nil in Hy.
  - destruct (IH (a `min` x)) as (Hm & Hle & Hall).
    split; [|split; [lia|]].
    + destruct Hm as [Hm|Hm]; [|right; by right].
      rewrite Hm. destruct (Z.min_spec a x) as [[_ ->]|[_ ->]];
        [by left|right; left].
    + intros y [->|Hy]%elem_of_cons; [lia|by apply Hall].
Qed.

Lemma foldl_max_spec (l : list Z) (a : Z) :
  (foldl Z.max a l = a ∨ foldl Z.max a l ∈ l)
  ∧ a ≤ foldl Z.max a l
  ∧ ∀ y, y ∈ l → y ≤ foldl Z.max a l.
Proof.
  revert a. induction l as [|x l IH]; intros a; simpl.
  - split; [by left|]. split; [lia|].
    intros y Hy. by apply elem_of_nil in Hy.
  - destruct (IH (a `max` x)) as (Hm & Hle & Hall).
    split; [|split; [lia|]].
    + destruct Hm as [Hm|Hm]; [|right; by right].
      rewrite Hm. destruct (Z.max_spec a x) as [[_ ->]|[_ ->]];
        [right; left|by left].
    + intros y [->|Hy]%elem_of_cons; [lia|by apply Hall].
Qed.

Lemma year_min_spec (l : list Z) (m : Z) :
  year_min l = Some m → m ∈ l ∧ ∀ y, y ∈ l → m ≤ y.
Proof.
  destruct l as [|a l]; [done|]. simpl. intros [= <-].
  destruct (foldl_min_spec l a) as (Hm & Hle & Hall). split.
  - destruct Hm as [->|Hm]; [left|by right].
  - intros y [->|Hy]%elem_of_cons; [done|by apply Hall].
Qed.

Lemma year_max_spec (l : list Z) (m : Z) :
  year_max l = Some m → m ∈ l ∧ ∀ y, y ∈ l → y ≤ m.
Proof.
  destruct l as [|a l]; [done|]. simpl. intros [= <-].
  destruct (foldl_max_spec l a) as (Hm & Hle & Hall). split.
  - destruct Hm as [->|Hm]; [left|by right].
  - intros y [->|Hy]%elem_of_cons; [done|by apply Hall].
Qed.

(** X4: computing the slider bounds raises IndexError on an empty table;
    on any other table it yields two years of the table that enclose the
    year of every row, and they are the year range shown in the
    overview. *)
Theorem slider_bounds_enclose (df : frame) :
  (df = [] ∧ slider_bounds df = Raise IndexError)
  ∨ ∃ lo hi, slider_bounds df = Ok (lo, hi)
      ∧ lo ∈ year <$> df ∧ hi ∈ year <$> df
      ∧ (∀ r, r ∈ df → lo ≤ year r ≤ hi)
      ∧ o_year_min (overview df) = Some lo
      ∧ o_year_max (overview df) = Some hi.
Proof.
  unfold slider_bounds, iloc_last.
  pose proof (year_keys_ascending df) as Hs.
  pose proof (year_keys_elem df) as Hel.
  change (year_keys df) with (available_years df) in Hs, Hel.
  destruct (available_years df) as [|lo ys] eqn:E.
  - left. split; [by apply available_years_nil|done].
  - right. destruct (last (lo :: ys)) as [hi|] eqn:Hlast.
    2:{ by apply last_None in Hlast. }
    exists lo, hi. simpl.
    assert (lo ∈ year <$> df) as Hlo by (apply Hel; left).
    assert (hi ∈ year <$> df) as Hhi.
    { apply Hel. apply last_Some in Hlast as [l' ->].
      apply elem_of_app. right. left. }
    assert (∀ y, y ∈ year <$> df → lo ≤ y ≤ hi) as Hbounds.
    { intros y Hy%Hel. split.
      - apply elem_of_cons in Hy as [->|Hy]; [lia|].
        apply StronglySorted_cons in Hs as [Hall _].
        rewrite Forall_forall in Hall. apply Z.lt_le_incl. by apply Hall.
      - by apply (StronglySorted_last_max _ _ Hs Hlast). }
    split; [done|]. split; [done|]. split; [done|].
    split; [intros r Hr; by apply Hbounds, list_elem_of_fmap_2|].
    destruct (year_min (year <$> df)) as [m|] eqn:Hmin.
    2:{ destruct df; [by apply elem_of_nil in Hlo|done]. }
    destruct (year_max (year <$> df)) as [M|] eqn:Hmax.
    2:{ destruct df; [by apply elem_of_nil in Hlo|done]. }
    apply year_min_spec in Hmin as [Hm1 Hm2].
    apply year_max_spec in Hmax as [HM1 HM2].
    pose proof (Hm2 lo Hlo). pose proof (HM2 hi Hhi).
    pose proof (Hbounds m Hm1). pose proof (Hbounds M HM1).
    split; f_equal; lia.
Qed.

(** ** Trend subset and rank order *)

Lemma length_filter_impl {A} (P Q : A → Prop) `{∀ x, Decision (P x)}
    `{∀ x, Decision (Q x)} (l : list A) :
  (∀ x, x ∈ l → P x → Q x) → (length (filter P l) ≤ length (filter Q l))%nat.
Proof.
  intros Himp. induction l as [|x l IH]; [done|].
  assert (length (filter P l) ≤ length (filter Q l))%nat as IH'.
  { apply IH. intros y Hy. apply Himp. by right. }
  rewrite !filter_cons.
  destruct (decide (P x)) as [HP|HP].
  - rewrite decide_True by (apply Himp; [left|done]). simpl. lia.
  - destruct (decide (Q x)); simpl; lia.
Qed.

(** X5: the trend subset holds exactly the rows of the searched code,
    each as often as the table does, in ascending order of year; it
    contains every exact-match row; and the line chart is drawn exactly
    when the table has at least two rows of that code. *)
Theorem company_all_data_sorted (df : frame) (stock_search : string)
    (selected_year : Z) :
  company_all_data df stock_search ≡ₚ filter (λ r, code r = stock_search) df
  ∧ StronglySorted (λ a b, year a ≤ year b) (company_all_data df stock_search)
  ∧ filtered_data df stock_search selected_year
    ⊆ company_all_data df stock_search
  ∧ (show_trend df stock_search = true
     ↔ (2 ≤ length (filter (λ r, code r = stock_search) df))%nat).
Proof.
  unfold show_trend, company_all_data.
  split; [apply sorted_Permutation|]. split; [|split].
  - eapply StronglySorted_weaken;
      [|apply (sorted_StronglySorted (λ a b, Z.leb (year a) (year b)))].
    + intros a b _ _ H. by apply Z.leb_le.
    + intros a b H. apply Z.leb_gt in H. apply Z.leb_le. lia.
    + intros a b c H1 H2. apply Z.leb_le in H1, H2. apply Z.leb_le. lia.
  - intros r (Hr & Hc & _)%filtered_data_elem.
    apply elem_of_sorted. by apply list_elem_of_filter.
  - rewrite bool_decide_eq_true, length_sorted. lia.
Qed.

Lemma ge_trans (a b c : option Q) :
  ge a b = true → ge b c = true → ge a c = true.
Proof.
  destruct a as [x|], b as [y|], c as [z|]; simpl; try done.
  rewrite !Qle_bool_iff. intros. lra.
Qed.

(** X6: within a year, a selection with the larger index never gets the
    larger rank number: if [v >= w] holds, the rank computed for [v] is
    at most the rank computed for [w]. *)
Theorem current_rank_antitone (df : frame) (selected_year : Z)
    (v w : option Q) :
  ge v w = true →
  (current_rank df selected_year v ≤ current_rank df selected_year w)%nat.
Proof.
  intros Hvw. unfold current_rank.
  apply length_filter_impl. intros r _ Hr. by apply (ge_trans _ v).
Qed.

Lemma current_rank_antitone_witness :
  (current_rank ex_two_years 1999 (Some 60%Q)
   ≤ current_rank ex_two_years 1999 (Some 50%Q))%nat.
Proof.
  apply (current_rank_antitone ex_two_years 1999 (Some 60%Q) (Some 50%Q)).
  reflexivity.
Defined.

(** ** The name registry on a preprocessed frame *)

Lemma preprocess_elem (raw : list raw_row) (r' : row) :
  r' ∈ preprocess raw →
  ∃ r, r ∈ raw ∧ code r' = str (raw_code r)
       ∧ name r' = Some (default sentinel (raw_name r))
       ∧ year r' = raw_year r ∧ index_value r' = raw_index r.
Proof.
  unfold preprocess, fillna_name, astype_str.
  rewrite <- list_fmap_compose.
  intros (r & -> & Hr)%list_elem_of_fmap.
  exists r. simpl. repeat split; try done.
  by destruct (raw_name r).
Qed.

Lemma registry_lookup_preprocessed (raw : list raw_row) (k : string) :
  k ∈ code <$> preprocess raw →
  ∃ r, r ∈ raw ∧ str (raw_code r) = k
       ∧ stock_name_map (preprocess raw) !! k
         = Some (Some (default sentinel (raw_name r))).
Proof.
  intros Hk. rewrite (stock_name_map_lookup _ _ Hk).
  apply list_elem_of_fmap in Hk as (r0 & -> & Hr0).
  assert (r0 ∈ code_group (code r0) (preprocess raw)) as Hin.
  { unfold code_group. by apply list_elem_of_filter. }
  destruct (code_group (code r0) (preprocess raw)) as [|r' g] eqn:E;
    [by apply elem_of_nil in Hin|].
  assert (r' ∈ code_group (code r0) (preprocess raw)) as Hr'
    by (rewrite E; left).
  apply list_elem_of_filter in Hr' as [Hc Hr'].
  apply preprocess_elem in Hr' as (r & Hr & Hcode & Hname & _).
  exists r. split; [done|]. split; [congruence|].
  rewrite fmap_cons, Hname. done.
Qed.

(** X7: on a preprocessed table the registry has an entry exactly for
    the selectable codes, and every entry is a real text, never NaN: the
    name of a row carrying the code, or the sentinel if that row has
    none. *)
Theorem registry_total (raw : list raw_row) (k : string) :
  (is_Some (stock_name_map (preprocess raw) !! k)
   ↔ k ∈ available_stocks (preprocess raw))
  ∧ ∀ v, stock_name_map (preprocess raw) !! k = Some v →
      ∃ r, r ∈ raw ∧ str (raw_code r) = k
           ∧ v = Some (default sentinel (raw_name r)).
Proof.
  split.
  - change (available_stocks (preprocess raw)) with (code_keys (preprocess raw)).
    rewrite code_keys_elem. split.
    + intros [v Hv].
      destruct (decide (k ∈ code <$> preprocess raw)) as [|Hn]; [done|].
      by rewrite (stock_name_map_lookup_None _ _ Hn) in Hv.
    + intros Hk. rewrite (stock_name_map_lookup _ _ Hk). by eexists.
  - intros v Hv.
    destruct (decide (k ∈ code <$> preprocess raw)) as [Hk|Hn].
    + destruct (registry_lookup_preprocessed raw k Hk) as (r & Hr & Hc & Hl).
      exists r. split; [done|]. split; [done|]. congruence.
    + by rewrite (stock_name_map_lookup_None _ _ Hn) in Hv.
Qed.

(** X8: on a preprocessed table the name column added to the top 20 is
    never NaN: the code of every entry is a key of the registry, and the
    entry gets the registry's text for it. *)
Theorem top20_named_found (raw : list raw_row)
    (e : string * option Q * option string) :
  e ∈ top20_named (preprocess raw) →
  ∃ s, snd e = Some s
       ∧ stock_name_map (preprocess raw) !! fst (fst e) = Some (Some s)
       ∧ fst e ∈ top20 (preprocess raw).
Proof.
  unfold top20_named.
  intros (e0 & -> & He0)%list_elem_of_fmap. simpl.
  assert (fst e0 ∈ code <$> preprocess raw) as Hk.
  { apply code_keys_elem. rewrite <- code_mean_codes.
    apply list_elem_of_fmap_2. by apply nlargest_subseteq in He0. }
  destruct (registry_lookup_preprocessed raw _ Hk) as (r & _ & _ & Hl).
  eexists. unfold map_dict. rewrite Hl. simpl.
  split; [done|]. split; [done|]. by destruct e0.
Qed.

Lemma top20_named_found_witness :
  ∃ s, snd ("A", Some (55 # 1), Some sentinel) = Some s
       ∧ stock_name_map (preprocess ex_names) !! "A" = Some (Some s)
       ∧ ("A", Some (55 # 1)) ∈ top20 (preprocess ex_names).
Proof.
  apply (top20_named_found ex_names ("A", Some (55 # 1), Some sentinel)).
  vm_compute. left.
Defined.

(** X9: the codes of the top 20 are the first 20 rows of the heatmap's
    top 30, in the same order. *)
Theorem top20_prefix_of_top_stocks (df : frame) :
  fst <$> top20 df = take 20 (top_stocks df).
Proof.
  unfold top20, top_stocks.
  rewrite !nlargest_ranking, <- fmap_take, take_take. done.
Qed.

(** ** Overview metrics *)

Lemma elem_of_dropna (l : list (option Q)) (q : Q) : q ∈ dropna l ↔ Some q ∈ l.
Proof.
  unfold dropna. rewrite list_elem_of_omap. split.
  - by intros ([x|] & Hx & [= ->]).
  - intros H. by exists (Some q).
Qed.

Lemma dropna_nil (l : list (option Q)) : dropna l = [] ↔ ∀ o, o ∈ l → o = None.
Proof.
  split.
  - intros H [q|] Ho; [|done].
    apply elem_of_dropna in Ho. rewrite H in Ho. by apply elem_of_nil in Ho.
  - intros H. destruct (dropna l) as [|q xs] eqn:E; [done|].
    assert (Some q ∈ l) as Hq by (apply elem_of_dropna; rewrite E; left).
    by apply H in Hq.
Qed.

Lemma qmax_cases (a b : Q) :
  (a <= qmax a b)%Q ∧ (b <= qmax a b)%Q ∧ (qmax a b = a ∨ qmax a b = b).
Proof.
  unfold qmax. destruct (Qle_bool_reflect a b) as [H|H].
  - split; [done|]. split; [apply Qle_refl|by right].
  - split; [apply Qle_refl|]. split; [lra|by left].
Qed.

Lemma foldl_qmax_spec (l : list Q) (a : Q) :
  (foldl qmax a l = a ∨ foldl qmax a l ∈ l)
  ∧ (a <= foldl qmax a l)%Q
  ∧ ∀ y, y ∈ l → (y <= foldl qmax a l)%Q.
Proof.
  revert a. induction l as [|x l IH]; intros a; simpl.
  - split; [by left|]. split; [apply Qle_refl|].
    intros y Hy. by apply elem_of_nil in Hy.
  - destruct (IH (qmax a x)) as (Hm & Hle & Hall).
    destruct (qmax_cases a x) as (Ha & Hx & Hc).
    split; [|split; [lra|]].
    + destruct Hm as [Hm|Hm]; [|right; by right].
      rewrite Hm. destruct Hc as [->| ->]; [by left|right; left].
    + intros y [->|Hy]%elem_of_cons; [lra|by apply Hall].
Qed.

Lemma col_max_spec (l : list (option Q)) (m : Q) :
  col_max l = Some m → Some m ∈ l ∧ ∀ q, Some q ∈ l → (q <= m)%Q.
Proof.
  unfold col_max. destruct (dropna l) as [|a xs] eqn:E; [done|].
  intros [= <-].
  destruct (foldl_qmax_spec xs a) as (Hm & Hle & Hall). split.
  - apply elem_of_dropna. rewrite E.
    destruct Hm as [->|Hm]; [left|by right].
  - intros q Hq%elem_of_dropna. rewrite E in Hq.
    apply elem_of_cons in Hq as [->|Hq]; [done|by apply Hall].
Qed.

Lemma Qsum_le (xs : list Q) (m : Q) :
  (∀ x, x ∈ xs → (x <= m)%Q) →
  (Qsum xs <= m * inject_Z (Z.of_nat (length xs)))%Q.
Proof.
  induction xs as [|x xs IH]; intros Hall.
  - change (0 <= m * 0)%Q. lra.
  - cbn [Qsum foldr length]. fold (Qsum xs).
    rewrite Nat2Z.inj_succ. unfold Z.succ. rewrite inject_Z_plus.
    assert (x <= m)%Q by (apply Hall; left).
    assert (Qsum xs <= m * inject_Z (Z.of_nat (length xs)))%Q.
    { apply IH. intros y Hy. apply Hall. by right. }
    change (inject_Z 1) with 1%Q. lra.
Qed.

Lemma mean_le_col_max (l : list (option Q)) (a m : Q) :
  mean l = Some a → col_max l = Some m → (a <= m)%Q.
Proof.
  intros Ha Hm. apply col_max_spec in Hm as [_ Hall].
  unfold mean in Ha. destruct (dropna l) as [|x xs] eqn:E; [done|].
  injection Ha as <-. rewrite Qred_correct.
  apply Qle_shift_div_r.
  - change 0%Q with (inject_Z 0). rewrite <- Zlt_Qlt. simpl. lia.
  - apply (Qsum_le (x :: xs)).
    intros y Hy. apply Hall, elem_of_dropna. by rewrite E.
Qed.

(** X10: the overview shows no maximum exactly when no row has an index
    value, and then no mean either; otherwise the maximum is the index of
    some row, no row has a larger index, and the mean shown does not
    exceed it. *)
Theorem overview_mean_max (df : frame) :
  (o_max (overview df) = None ↔ ∀ r, r ∈ df → index_value r = None)
  ∧ (o_mean (overview df) = None ↔ o_max (overview df) = None)
  ∧ ∀ m, o_max (overview df) = Some m →
      (∃ r, r ∈ df ∧ index_value r = Some m)
      ∧ (∀ r q, r ∈ df → index_value r = Some q → (q <= m)%Q)
      ∧ ∃ a, o_mean (overview df) = Some a ∧ (a <= m)%Q.
Proof.
  simpl.
  assert (col_max (index_value <$> df) = None
          ↔ dropna (index_value <$> df) = []) as Hmax.
  { unfold col_max. by destruct (dropna _). }
  assert (mean (index_value <$> df) = None
          ↔ dropna (index_value <$> df) = []) as Hmean.
  { unfold mean. by destruct (dropna _). }
  split; [|split].
  - rewrite Hmax, dropna_nil. split.
    + intros H r Hr. apply H. by apply list_elem_of_fmap_2.
    + intros H o (r & -> & Hr)%list_elem_of_fmap. by apply H.
  - by rewrite Hmax, Hmean.
  - intros m Hm. pose proof (col_max_spec _ _ Hm) as [Hin Hall].
    split; [|split].
    + apply list_elem_of_fmap in Hin as (r & Hr & Hin). by exists r.
    + intros r q Hr Hq. apply Hall. rewrite <- Hq.
      by apply list_elem_of_fmap_2.
    + destruct (mean (index_value <$> df)) as [a|] eqn:Ha.
      * exists a. split; [done|]. by apply (mean_le_col_max _ _ _ Ha Hm).
      * assert (dropna (index_value <$> df) = []) as Hd by (by apply Hmean).
        apply Hmax in Hd. congruence.
Qed.

(** ** The pivot table *)

Lemma agged_elem (df : frame) (k : string) (y : Z) (v : option Q) :
  (k, y, v) ∈ agged df ↔
  filtered_data df k y ≠ [] ∧ v = mean (index_value <$> filtered_data df k y).
Proof.
  unfold agged, filtered_data. rewrite list_elem_of_bind. split.
  - intros (k' & (y' & Hin & _)%list_elem_of_bind & _).
    case_bool_decide as Hg; [by apply elem_of_nil in Hin|].
    apply list_elem_of_singleton in Hin. injection Hin as -> -> ->. done.
  - intros [Hg ->].
    destruct (filter _ df) as [|r g] eqn:E; [done|].
    assert (r ∈ filter (λ r, code r = k ∧ year r = y) df) as Hr
      by (rewrite E; left).
    apply list_elem_of_filter in Hr as [[Hc Hy] Hr].
    exists k. split.
    + apply list_elem_of_bind. exists y. split.
      * rewrite E. rewrite bool_decide_eq_false_2 by done. left.
      * apply year_keys_elem. rewrite <- Hy. by apply list_elem_of_fmap_2.
    + apply code_keys_elem. rewrite <- Hc. by apply list_elem_of_fmap_2.
Qed.

Lemma mean_Some_inv (l : list (option Q)) (q : Q) :
  mean l = Some q → ∃ x, Some x ∈ l.
Proof.
  unfold mean. destruct (dropna l) as [|x xs] eqn:E; [done|].
  intros _. exists x. apply elem_of_dropna. rewrite E. left.
Qed.

Lemma pivot_cells_elem (df : frame) (k : string) (y : Z) (q : Q) :
  (k, y, q) ∈ p_cells (pivot_table df)
  ↔ mean (index_value <$> filtered_data df k y) = Some q.
Proof.
  unfold pivot_table. simpl. rewrite list_elem_of_omap. split.
  - intros ([[k' y'] v] & Hin & Hv). simpl in Hv.
    destruct v as [q'|]; [|done]. injection Hv as -> -> ->.
    apply agged_elem in Hin as [_ Hm]. done.
  - intros Hm. exists (k, y, Some q). split; [|done].
    apply agged_elem. split; [|done].
    intros Hnil. by rewrite Hnil in Hm.
Qed.

(** X11: a cell of the pivot holds the mean index of the rows with its
    code and year, and a (code, year) pair none of whose rows has an index
    value has no cell; the row labels are, without repetition, the codes
    that have a cell, and the column labels, in ascending order, the years
    that have one. *)
Theorem pivot_cells_are_group_means (df : frame) :
  (∀ k y q, (k, y, q) ∈ p_cells (pivot_table df)
            ↔ mean (index_value <$> filtered_data df k y) = Some q)
  ∧ NoDup (p_index (pivot_table df))
  ∧ (∀ k, k ∈ p_index (pivot_table df)
          ↔ ∃ y q, (k, y, q) ∈ p_cells (pivot_table df))
  ∧ StronglySorted Z.lt (p_columns (pivot_table df))
  ∧ (∀ y, y ∈ p_columns (pivot_table df)
          ↔ ∃ k q, (k, y, q) ∈ p_cells (pivot_table df)).
Proof.
  split; [apply pivot_cells_elem|].
  unfold pivot_table. cbn [p_index p_columns p_cells].
  set (cells := omap _ (agged df)).
  split; [apply NoDup_unique|]. split; [|split].
  - intros k. rewrite elem_of_unique, list_elem_of_fmap. split.
    + intros ([[k' y] q] & -> & Hin). by exists y, q.
    + intros (y & q & Hin). by exists (k, y, q).
  - eapply StronglySorted_weaken; [|apply (sorted_strictly Z.leb)].
    + intros x y _ _ [Hle Hne]. apply Z.leb_le in Hle. lia.
    + intros x y H. apply Z.leb_gt in H. apply Z.leb_le. lia.
    + intros x y z H1 H2. apply Z.leb_le in H1, H2. apply Z.leb_le. lia.
    + apply NoDup_unique.
  - intros y. rewrite elem_of_sorted, elem_of_unique, list_elem_of_fmap. split.
    + intros ([[k y'] q] & -> & Hin). by exists k, q.
    + intros (k & q & Hin). by exists (k, y, q).
Qed.

Lemma pivot_not_empty (df : frame) (r : row) :
  r ∈ df → is_Some (index_value r) → empty (pivot_table df) = false.
Proof.
  intros Hr [q Hq].
  destruct (mean_is_Some (index_value <$> filtered_data df (code r) (year r)) q)
    as [m Hm].
  { rewrite <- Hq. apply list_elem_of_fmap_2. by apply filtered_data_elem. }
  apply pivot_cells_elem in Hm.
  unfold empty, pivot_table in *. cbn [p_index p_columns p_cells] in *.
  set (cells := omap _ (agged df)) in *.
  apply orb_false_iff. split; apply bool_decide_eq_false_2; intros Hnil.
  - assert (code r ∈ unique ((λ c, fst (fst c)) <$> cells)) as Hin.
    { apply elem_of_unique, list_elem_of_fmap. by exists (code r, year r, m). }
    rewrite Hnil in Hin. by apply elem_of_nil in Hin.
  - assert (year r ∈ sorted Z.leb (unique ((λ c, snd (fst c)) <$> cells)))
      as Hin.
    { apply elem_of_sorted, elem_of_unique, list_elem_of_fmap.
      by exists (code r, year r, m). }
    rewrite Hnil in Hin. by apply elem_of_nil in Hin.
Qed.

(** X12: the pivot is empty, and the heatmap block skipped without any
    lookup, exactly when no row of the table has an index value. *)
Theorem pivot_empty_iff (df : frame) :
  (empty (pivot_table df) = true ↔ ∀ r, r ∈ df → index_value r = None)
  ∧ (empty (pivot_table df) = true → pivot_subset df = Ok None).
Proof.
  split; [split|].
  - intros He r Hr. destruct (index_value r) as [q|] eqn:Hq; [|done].
    rewrite (pivot_not_empty df r Hr) in He; [done|]. by rewrite Hq.
  - intros Hnone.
    assert (p_cells (pivot_table df) = []) as Hcells.
    { destruct (p_cells (pivot_table df)) as [|[[k y] q] cs] eqn:E; [done|].
      assert ((k, y, q) ∈ p_cells (pivot_table df)) as Hin by (rewrite E; left).
      apply pivot_cells_elem, mean_Some_inv in Hin as [x Hx].
      apply list_elem_of_fmap in Hx as (r & Hx & Hr).
      apply filtered_data_elem in Hr as [Hr _].
      rewrite (Hnone r Hr) in Hx. done. }
    unfold empty, pivot_table in *. cbn [p_index p_columns p_cells] in *.
    by rewrite Hcells.
  - intros He. unfold pivot_subset. by rewrite He.
Qed.

(** X13: when the table has rows and every code has an index value in
    some row, the heatmap lookup succeeds: its rows are the top-30 codes in
    their order, its columns all the columns of the pivot, and its cells
    the pivot's cells of those codes. *)
Theorem pivot_subset_rows (df : frame) :
  df ≠ [] →
  (∀ k, k ∈ code <$> df → ∃ r, r ∈ df ∧ code r = k ∧ is_Some (index_value r)) →
  ∃ p, pivot_subset df = Ok (Some p)
       ∧ p_index p = top_stocks df
       ∧ p_columns p = p_columns (pivot_table df)
       ∧ ∀ c, c ∈ p_cells p
              ↔ c ∈ p_cells (pivot_table df) ∧ fst (fst c) ∈ top_stocks df.
Proof.
  intros Hne Hval. unfold pivot_subset.
  destruct df as [|r0 df0] eqn:Edf; [done|]. rewrite <- Edf in *.
  destruct (Hval (code r0)) as (r & Hr & _ & Hsome).
  { rewrite Edf, fmap_cons. left. }
  rewrite (pivot_not_empty df r Hr Hsome).
  unfold loc.
  replace (filter _ (top_stocks df)) with (@nil string).
  - eexists. split; [done|]. simpl. split; [done|]. split; [done|].
    intros c. rewrite list_elem_of_filter. tauto.
  - symmetry. apply filter_none.
    intros k Hk%top_stocks_codes Hnot.
    destruct (Hval k Hk) as (r' & Hr' & <- & Hsome').
    apply Hnot. by apply pivot_index_elem.
Qed.

Lemma pivot_subset_rows_witness :
  ∃ p, pivot_subset ex_two_years = Ok (Some p)
       ∧ p_index p = top_stocks ex_two_years
       ∧ p_columns p = p_columns (pivot_table ex_two_years)
       ∧ ∀ c, c ∈ p_cells p
              ↔ c ∈ p_cells (pivot_table ex_two_years)
                ∧ fst (fst c) ∈ top_stocks ex_two_years.
Proof.
  apply (pivot_subset_rows ex_two_years); [done|].
  intros k Hk. exists (Row "600003" (Some "Acme") 1998 (Some 50%Q)).
  split; [left|]. split; [|by eexists].
  vm_compute in Hk.
  by repeat (apply elem_of_cons in Hk as [->|Hk]; [done|]);
    apply elem_of_nil in Hk.
Defined.

(** ** Yearly statistics *)

Lemma nunique_mono (a b : list string) :
  (∀ k, k ∈ a → k ∈ b) → (nunique a ≤ nunique b)%nat.
Proof.
  intros Hsub. unfold nunique.
  apply submseteq_length, NoDup_submseteq; [apply NoDup_unique|].
  intros k. rewrite !elem_of_unique. apply Hsub.
Qed.

(** X14: the yearly statistics list one entry per selectable year, in
    ascending order, with the same mean as the per-year mean series; the
    company count of a year is at least 1, at most the number of rows of
    that year, and at most the company count of the whole table. *)
Theorem yearly_stats_counts (df : frame) :
  (λ e, fst (fst e)) <$> yearly_stats df = available_years df
  ∧ fst <$> yearly_stats df = yearly_mean df
  ∧ ∀ y m n, (y, m, n) ∈ yearly_stats df →
      (1 ≤ n)%nat
      ∧ (n ≤ length (current_year_data df y))%nat
      ∧ (n ≤ o_count (overview df))%nat.
Proof.
  unfold yearly_stats. split; [|split].
  - rewrite <- list_fmap_compose.
    rewrite (list_fmap_ext _ id (year_keys df)) by done.
    apply list_fmap_id.
  - unfold yearly_mean. rewrite <- list_fmap_compose.
    by apply list_fmap_ext.
  - intros y m n (y' & [= -> -> ->] & Hy)%list_elem_of_fmap.
    apply year_keys_elem, list_elem_of_fmap in Hy as (r & -> & Hr).
    assert (r ∈ year_group (year r) df) as Hin
      by (by apply list_elem_of_filter).
    split; [|split].
    + unfold nunique.
      destruct (year_group (year r) df) as [|r' g]; [by apply elem_of_nil in Hin|].
      simpl. lia.
    + unfold nunique, current_year_data, year_group.
      etrans; [|by rewrite <- (length_fmap code)].
      apply submseteq_length, NoDup_submseteq; [apply NoDup_unique|].
      intros k. by rewrite elem_of_unique.
    + simpl. apply nunique_mono.
      intros k (r' & -> & Hr')%list_elem_of_fmap.
      apply list_elem_of_filter in Hr' as [_ Hr'].
      by apply list_elem_of_fmap_2.
Qed.

(** ** Change rate at the edges *)

(** X15: when the mean of the year before is zero the change is not a
    number: it is NaN if the mean of the year is zero too, and otherwise
    an infinity with the sign of that mean. *)
Theorem change_rate_zero_previous (df : frame) (t : nat) (y0 y1 : Z) (m0 m1 : Q) :
  yearly_mean df !! t = Some (y0, Some m0) →
  yearly_mean df !! S t = Some (y1, Some m1) →
  (m0 == 0)%Q →
  change_rate df !! S t
  = Some (if Qeq_bool m1 0 then NaN else Inf (isneg m1)).
Proof.
  intros H0 H1 Hz. rewrite (change_rate_lookup _ _ _ _ _ _ H0 H1). simpl.
  rewrite (proj2 (Qeq_bool_iff m0 0) Hz).
  destruct (Qeq_bool m1 0); [done|]. simpl. by rewrite xorb_false_r.
Qed.

Lemma change_rate_zero_previous_witness :
  change_rate ex_boundaries_years !! 1%nat = Some (Inf false).
Proof.
  apply (change_rate_zero_previous ex_boundaries_years 0 1998 1999 0 20);
    reflexivity.
Defined.

(** X16: when the mean of the year before is positive the change is a
    finite number, equal to (mean - previous) / previous * 100; it is
    positive exactly when the mean rose, and zero exactly when the mean
    stayed the same. *)
Theorem change_rate_sign (df : frame) (t : nat) (y0 y1 : Z) (m0 m1 : Q) :
  yearly_mean df !! t = Some (y0, Some m0) →
  yearly_mean df !! S t = Some (y1, Some m1) →
  (0 < m0)%Q →
  ∃ c, change_rate df !! S t = Some (Num c)
       ∧ (c == (m1 - m0) / m0 * 100)%Q
       ∧ ((0 < c)%Q ↔ (m0 < m1)%Q)
       ∧ ((c == 0)%Q ↔ (m1 == m0)%Q).
Proof.
  intros H0 H1 Hpos. rewrite (change_rate_lookup _ _ _ _ _ _ H0 H1). simpl.
  destruct (Qeq_bool m0 0) eqn:E.
  { apply Qeq_bool_iff in E. lra. }
  simpl. eexists. split; [done|].
  assert (m1 / m0 * m0 == m1)%Q as Hd by (field; lra).
  set (d := (m1 / m0)%Q) in *.
  assert ((m1 - m0) / m0 == d - 1)%Q as Heq by (unfold d; field; lra).
  split; [rewrite Heq; lra|]. split; split; intros H; nra.
Qed.

Lemma change_rate_sign_witness :
  ∃ c, change_rate ex_two_years !! 1%nat = Some (Num c)
       ∧ (c == (60 - 50) / 50 * 100)%Q
       ∧ ((0 < c)%Q ↔ (50 < 60)%Q)
       ∧ ((c == 0)%Q ↔ (60 == 50)%Q).
Proof.
  apply (change_rate_sign ex_two_years 0 1998 1999 50 60); reflexivity.
Defined.

(** ** The loader on a file that does not parse *)

Lemma load_loop_app (w : world) (pre post : list string) (p : string) :
  (∀ q, q ∈ pre → path_exists w q = false) →
  path_exists w p = true →
  load_loop w (pre ++ p :: post)
  = ((Exists <$> pre) ++ [Exists p; ReadExcel p],
     t ← read_excel w p; Ok (Some t)).
Proof.
  intros Hpre Hp. induction pre as [|q pre IH]; simpl.
  - by rewrite Hp.
  - rewrite (Hpre q) by left.
    rewrite IH; [done|]. intros q' Hq'. apply Hpre. by right.
Qed.

(** X17: when the spreadsheet reader raises on the first candidate path
    that exists, the loader raises the same exception; it does not go on
    to the later candidates, which are neither probed nor read. *)
Theorem load_data_no_fallback (w : world) (pre post : list string)
    (p : string) (e : exn) :
  data_files = pre ++ p :: post →
  (∀ q, q ∈ pre → path_exists w q = false) →
  path_exists w p = true →
  read_excel w p = Raise e →
  snd (load_data w) = Raise e
  ∧ ∀ q, q ∈ post → (Exists q ∉ fst (load_data w))
                     ∧ (ReadExcel q ∉ fst (load_data w)).
Proof.
  intros Hfiles Hpre Hp Hread. unfold load_data.
  assert (NoDup data_files) as Hnd by (by apply (bool_decide_unpack _)).
  rewrite Hfiles in Hnd |- *.
  rewrite (load_loop_app w pre post p Hpre Hp), Hread. simpl.
  split; [done|]. intros q Hq.
  apply NoDup_app in Hnd as (_ & Hdisj & [Hp' _]%NoDup_cons).
  split; intros Hin; apply elem_of_app in Hin as [Hin|Hin].
  - apply list_elem_of_fmap in Hin as (q' & [= ->] & Hq').
    apply (Hdisj q' Hq'). by right.
  - apply elem_of_cons in Hin as [[= ->]|Hin]; [done|].
    apply elem_of_cons in Hin as [?|Hin]; [done|by apply elem_of_nil in Hin].
  - by apply list_elem_of_fmap in Hin as (q' & ? & _).
  - apply elem_of_cons in Hin as [?|Hin]; [done|].
    apply elem_of_cons in Hin as [[= ->]|Hin]; [done|by apply elem_of_nil in Hin].
Qed.

Lemma load_data_no_fallback_witness :
  snd (load_data ex_world_unreadable)
  = Raise (FileError "data.xlsx")
  ∧ ∀ q, q ∈ tail data_files →
      (Exists q ∉ fst (load_data ex_world_unreadable))
      ∧ (ReadExcel q ∉ fst (load_data ex_world_unreadable)).
Proof.
  apply (load_data_no_fallback ex_world_unreadable [] (tail data_files)
           "data.xlsx" (FileError "data.xlsx")); try reflexivity.
  intros q Hq. by apply elem_of_nil in Hq.
Defined.

(** ** The default selection *)

(** X18: on a preprocessed table with at least one row, the code selected
    by default has rows in the table, so its trend subset is not empty,
    and the name shown for it is the name of a row carrying it, or the
    sentinel if that row has none. *)
Theorem default_selection_exists (raw : list raw_row) :
  raw ≠ [] →
  company_all_data (preprocess raw) (default_stock (preprocess raw)) ≠ []
  ∧ ∃ r, r ∈ raw
         ∧ str (raw_code r) = default_stock (preprocess raw)
         ∧ display_name (preprocess raw) (default_stock (preprocess raw))
           = default sentinel (raw_name r).
Proof.
  intros Hne.
  assert (default_stock (preprocess raw) ∈ code <$> preprocess raw) as Hk.
  { unfold default_stock.
    pose proof (code_keys_elem (preprocess raw)) as Hel.
    change (code_keys (preprocess raw))
      with (available_stocks (preprocess raw)) in Hel.
    destruct (available_stocks (preprocess raw)) as [|k ks] eqn:E.
    - apply available_stocks_nil in E. by destruct raw.
    - apply Hel. left. }
  split.
  - unfold company_all_data. intros Hnil.
    pose proof (sorted_Permutation (λ a b, Z.leb (year a) (year b))
                  (filter (λ r, code r = default_stock (preprocess raw))
                          (preprocess raw))) as HP.
    rewrite Hnil in HP. apply Permutation_nil_l in HP. clear Hnil.
    rename HP into Hnil.
    apply list_elem_of_fmap in Hk as (r & Hc & Hr).
    assert (r ∈ filter (λ r, code r = default_stock (preprocess raw))
                  (preprocess raw)) as Hin by (by apply list_elem_of_filter).
    rewrite <- Hnil in Hin. by apply elem_of_nil in Hin.
  - destruct (registry_lookup_preprocessed raw _ Hk) as (r & Hr & Hc & Hl).
    exists r. split; [done|]. split; [done|].
    unfold display_name. by rewrite Hl.
Qed.

Lemma default_selection_exists_witness :
  company_all_data (preprocess ex_names) (default_stock (preprocess ex_names))
  ≠ []
  ∧ ∃ r, r ∈ ex_names
         ∧ str (raw_code r) = default_stock (preprocess ex_names)
         ∧ display_name (preprocess ex_names)
             (default_stock (preprocess ex_names))
           = default sentinel (raw_name r).
Proof. apply (default_selection_exists ex_names). done. Defined.
